(** * MFCC extraction notebook: the processing loop and its stages

    Shallow embedding of the code cell of
    [examples/notebooks/mfcc-extraction.ipynb]:

<<
    for key, wav in reader:
        if wav.duration < opts.min_duration:
            continue
        assert(wav.samp_freq >= sf)
        assert(wav.samp_freq % sf == 0)
        s = wav.data()
        s = s[:,::int(wav.samp_freq / sf)]
        m = SubVector(mean(s, axis=0))
        f = mfcc.compute_features(m, sf, 1.0)
        f = SubMatrix(scale(f))
        writer[key] = f
>>

    Sample values and durations are Python floats in the notebook; they are
    embedded as rationals ([Q]), sample rates as integers ([Z], the rate of a
    wave header is an integer number of Hz).  The [print] calls of the cell
    only write to stdout and do not take part in the data flow; they are left
    out. *)

From Stdlib Require Import String Bool List ZArith QArith Lia.
Import ListNotations.

Set Implicit Arguments.
Close Scope Q_scope.

(** ** Exceptions and the result monad *)

(** The exceptions the cell can raise.  [AssertionError] is what a failed
    [assert] raises (the specification calls the failure of the two rate
    assertions [UnsupportedRateError]); [ZeroDivisionError] is Python's
    float modulo or division by zero; [ValueError] is a slice step of zero;
    [DegenerateInputError] is the specification's name for the standardizer
    rejecting a matrix without rows. *)
Inductive Exception : Type :=
| AssertionError
| ZeroDivisionError
| ValueError
| DegenerateInputError.

Inductive result (A : Type) : Type :=
| Ok (a : A)
| Raise (e : Exception).

Arguments Ok {A} a.
Arguments Raise {A} e.

Definition bind {A B : Type} (r : result A) (k : A -> result B) : result B :=
  match r with
  | Ok a => k a
  | Raise e => Raise e
  end.

Declare Scope py_scope.
Delimit Scope py_scope with py.
Notation "x <- c ;; k" := (bind c (fun x => k))
  (at level 61, c at next level, right associativity) : py_scope.
Notation "c ;;; k" := (bind c (fun _ => k))
  (at level 61, right associativity) : py_scope.
Open Scope py_scope.

(** [assert(b)] *)
Definition py_assert (b : bool) : result unit :=
  if b then Ok tt else Raise AssertionError.

(** [a % b] on Python numbers: the sign follows the divisor, as [Z.modulo]
    does, and a zero divisor raises. *)
Definition py_mod (a b : Z) : result Z :=
  if (b =? 0)%Z then Raise ZeroDivisionError else Ok (a mod b)%Z.

(** [int(a / b)]: true division, raising on a zero divisor, then truncation
    towards zero. *)
Definition py_int_div (a b : Z) : result Z :=
  if (b =? 0)%Z then Raise ZeroDivisionError else Ok (Z.quot a b).

(** ** Matrices and wave data *)

(** A Kaldi matrix, row by row.  For wave data a row is a channel. *)
Abbreviation Vector := (list Q) (only parsing).
Abbreviation Matrix := (list (list Q)) (only parsing).

Record WaveData : Type := mkWave {
  samp_freq : Z;      (* wav.samp_freq *)
  data : Matrix       (* wav.data(): channels x samples *)
}.

(** Number of columns of a matrix whose rows have equal length. *)
Definition num_cols (s : Matrix) : nat :=
  match s with
  | [] => 0
  | r :: _ => length r
  end.

(** Modelled from the spec: the [duration] property of the wave object is
    not part of the notebook; following 4.1 it is the sample count divided
    by the sample rate. *)
Definition duration (wav : WaveData) : Q :=
  (inject_Z (Z.of_nat (num_cols (data wav))) / inject_Z (samp_freq wav))%Q.

(** A valid AudioBuffer (data model, section 3): positive sample rate, at
    least one channel, all channels of the same length [n]. *)
Definition valid_wave (n : nat) (wav : WaveData) : Prop :=
  (0 < samp_freq wav)%Z /\ data wav <> [] /\
  Forall (fun ch => length ch = n) (data wav).

(** ** Slicing with a step: [s[:, ::k]] *)

(** Walk a row keeping one element and then dropping [p]; [c] is the number
    of elements still to drop before the next one is kept.
    [take_every p 0 l] is [l[::p+1]]. *)
Fixpoint take_every {A : Type} (p c : nat) (l : list A) : list A :=
  match l with
  | [] => []
  | x :: t =>
      match c with
      | O => x :: take_every p p t
      | S c' => take_every p c' t
      end
  end.

(** [s[:, ::k]]: every row is sliced with the same step; a zero step raises,
    a negative step walks a row from its last element backwards. *)
Definition slice_cols (k : Z) (s : Matrix) : result Matrix :=
  match k with
  | Z0 => Raise ValueError
  | Zpos q => Ok (map (take_every (Pos.to_nat q - 1) 0) s)
  | Zneg q => Ok (map (fun r => take_every (Pos.to_nat q - 1) 0 (rev r)) s)
  end.

(** Lines 160-173: the two rate assertions and the decimation. *)
Definition resample (sf : Z) (wav : WaveData) : result Matrix :=
  py_assert (sf <=? samp_freq wav)%Z ;;;
  r <- py_mod (samp_freq wav) sf ;;
  py_assert (r =? 0)%Z ;;;
  k <- py_int_div (samp_freq wav) sf ;;
  slice_cols k (data wav).

(** Ceiling of [n / k] for a positive [k]. *)
Definition ceil_div (n k : Z) : Z := ((n + k - 1) / k)%Z.

(** ** Downmix: [mean(s, axis=0)] *)

(** Element-wise sum of two rows of the same length. *)
Fixpoint add_rows (a b : Vector) : Vector :=
  match a, b with
  | x :: a', y :: b' => (x + y)%Q :: add_rows a' b'
  | _, _ => []
  end.

(** Modelled from the spec: [numpy.mean] is not part of the notebook;
    following 4.2 it is the arithmetic mean of the channels, sample by
    sample: the rows are summed from the first one on and every sum is
    divided by the number of rows.  A wave has at least one channel; the
    empty matrix is mapped to the empty signal. *)
Definition mean_axis0 (s : Matrix) : Vector :=
  match s with
  | [] => []
  | r :: rs =>
      map (fun x => (x / inject_Z (Z.of_nat (length s)))%Q)
          (fold_left add_rows rs r)
  end.

(** ** Feature extraction and standardization *)

(** An analysis frame: its start offset in the signal and its samples. *)
Record AnalysisFrame : Type := mkFrame {
  start : nat;
  samples : Vector
}.

(** The floating-point numerics of the external libraries: what one frame
    is turned into (window, spectrum, Mel filter bank, cepstrum), and how a
    matrix with at least one row is standardized.  The properties proved
    below hold for any such pair of functions. *)
Class Numerics : Type := {
  frame_features : AnalysisFrame -> Vector;
  standardize : Matrix -> Matrix
}.

(** Options of the run: [opts.min_duration], the target rate
    [mfcc_opts.frame_opts.samp_freq] and the frame length and shift of
    [mfcc_opts.frame_opts], in samples. *)
Record Options : Type := mkOptions {
  min_duration : Q;
  sf : Z;
  frame_length : nat;
  frame_shift : nat
}.

(** Modelled from the spec: the frame extractor of [Mfcc] is not part of
    the notebook.  Following 4.3, candidate frames start at the multiples of
    the shift and take [fl] samples from there; a candidate that comes out
    shorter than [fl] is dropped.  The shift is positive. *)
Definition extract_frames (fl fs : nat) (m : Vector) : list AnalysisFrame :=
  filter (fun fr => length (samples fr) =? fl)
         (map (fun i => mkFrame (i * fs) (firstn fl (skipn (i * fs) m)))
              (seq 0 (S (length m)))).

(** Modelled from the spec: [Mfcc.compute_features] is not part of the
    notebook.  Following 4.3 to 4.6 it yields one feature vector per
    analysis frame, in frame order.  The call passes the extractor's own
    rate [sf] and a warp factor of 1.0, so neither changes the signal. *)
Definition compute_features `{Numerics} (cfg : Options) (m : Vector) : Matrix :=
  map frame_features (extract_frames (frame_length cfg) (frame_shift cfg) m).

(** Modelled from the spec: [sklearn.preprocessing.scale] is not part of the
    notebook.  Following 4.7 it fails on a matrix without rows and
    standardizes the columns otherwise. *)
Definition scale `{Numerics} (f : Matrix) : result Matrix :=
  match f with
  | [] => Raise DegenerateInputError
  | _ :: _ => Ok (standardize f)
  end.

(** ** One utterance: lines 160-182 *)

Definition process `{Numerics} (cfg : Options) (wav : WaveData) : result Matrix :=
  s <- resample (sf cfg) wav ;;
  let m := mean_axis0 s in
  let f := compute_features cfg m in
  scale f.

(** ** The loop: lines 156-188 *)

(** The table written by [writer[key] = f]: records in the order they are
    written, a key may occur more than once. *)
Definition Table : Type := list (string * Matrix).

(** [wav.duration < opts.min_duration] *)
Definition below_min (cfg : Options) (wav : WaveData) : bool :=
  match (duration wav ?= min_duration cfg)%Q with
  | Lt => true
  | _ => false
  end.

(** One pass through the loop body; [Ok] is the table the next pass starts
    from. *)
Definition iteration `{Numerics} (cfg : Options) (item : string * WaveData)
    (writer : Table) : result Table :=
  let (key, wav) := item in
  if below_min cfg wav then Ok writer
  else f <- process cfg wav ;; Ok (writer ++ [(key, f)]).

(** How the loop ends: the reader is exhausted, or an exception leaves the
    loop; either way the records written so far are in the table. *)
Inductive Outcome : Type :=
| Finished (writer : Table)
| Aborted (e : Exception) (writer : Table).

Definition written (o : Outcome) : Table :=
  match o with
  | Finished w => w
  | Aborted _ w => w
  end.

Fixpoint run `{Numerics} (cfg : Options) (reader : list (string * WaveData))
    (writer : Table) : Outcome :=
  match reader with
  | [] => Finished writer
  | item :: rest =>
      match iteration cfg item writer with
      | Ok writer' => run cfg rest writer'
      | Raise e => Aborted e writer
      end
  end.

(** The same loop as a big-step relation, one rule per path through the
    body; [exec_run] and [exec_functional] below show that it is the graph
    of [run]. *)
Inductive exec `{Numerics} (cfg : Options) :
    list (string * WaveData) -> Table -> Outcome -> Prop :=
| exec_exhausted : forall w,
    exec cfg [] w (Finished w)
| exec_continue : forall key wav rest w o,
    (duration wav < min_duration cfg)%Q ->
    exec cfg rest w o ->
    exec cfg ((key, wav) :: rest) w o
| exec_write : forall key wav rest w f o,
    ~ (duration wav < min_duration cfg)%Q ->
    process cfg wav = Ok f ->
    exec cfg rest (w ++ [(key, f)]) o ->
    exec cfg ((key, wav) :: rest) w o
| exec_raise : forall key wav rest w e,
    ~ (duration wav < min_duration cfg)%Q ->
    process cfg wav = Raise e ->
    exec cfg ((key, wav) :: rest) w (Aborted e w).

(** ** What the sink is expected to hold *)

(** The record an item contributes: one, under its own key, when it passes
    the duration filter and the pipeline succeeds on it; none otherwise. *)
Definition record_of `{Numerics} (cfg : Options) (item : string * WaveData)
    : Table :=
  let (key, wav) := item in
  if below_min cfg wav then []
  else match process cfg wav with
       | Ok f => [(key, f)]
       | Raise _ => []
       end.

(** The items the loop takes from the reader: all of them up to and
    including the first one on which the pipeline raises. *)
Fixpoint items_read `{Numerics} (cfg : Options)
    (reader : list (string * WaveData)) : list (string * WaveData) :=
  match reader with
  | [] => []
  | (key, wav) :: rest =>
      if below_min cfg wav then (key, wav) :: items_read cfg rest
      else match process cfg wav with
           | Ok _ => (key, wav) :: items_read cfg rest
           | Raise _ => [(key, wav)]
           end
  end.

(** ** The reader behind the loop *)

(** An entry of the table the reader walks: its key and the wave object its
    value loads, [None] when the object cannot be loaded (the file of the
    script line cannot be opened). *)
Record Entry : Type := mkEntry {
  entry_key : string;
  entry_value : option WaveData
}.

(** How the [for] statement over the reader ends: as the loop over loaded
    items does, or with the [RuntimeError] that [value()] raises for the
    entry under [key]. *)
Inductive ReaderOutcome : Type :=
| Completed (writer : Table)
| BodyRaised (e : Exception) (writer : Table)
| RuntimeError (key : string) (writer : Table).

(** The [for] statement over the generator [_SequentialReaderBase.__iter__]:

<<
    while not self.done():
        key = self.key()
        value = self.value()
        self.next()
        yield key, value
>>

    The value of an entry is loaded when the loop asks for that item, after
    the body has run on the items before it. *)
Fixpoint run_reader `{Numerics} (cfg : Options) (entries : list Entry)
    (writer : Table) : ReaderOutcome :=
  match entries with
  | [] => Completed writer
  | entry :: rest =>
      match entry_value entry with
      | None => RuntimeError (entry_key entry) writer
      | Some wav =>
          match iteration cfg (entry_key entry, wav) writer with
          | Ok writer' => run_reader cfg rest writer'
          | Raise e => BodyRaised e writer
          end
      end
  end.

(** The entry of an item that loads. *)
Definition loaded (item : string * WaveData) : Entry :=
  mkEntry (fst item) (Some (snd item)).

(** The outcome of the loop over loaded items, and what becomes of it when
    the entry under [key] then fails to load. *)
Definition of_outcome (o : Outcome) : ReaderOutcome :=
  match o with
  | Finished w => Completed w
  | Aborted e w => BodyRaised e w
  end.

Definition then_load_fails (key : string) (o : Outcome) : ReaderOutcome :=
  match o with
  | Finished w => RuntimeError key w
  | Aborted e w => BodyRaised e w
  end.

(** ** Auxiliary notions for the properties of the loop *)

(** [subseq l1 l2]: [l1] is [l2] with some elements left out, the others in
    their order. *)
Inductive subseq {A : Type} : list A -> list A -> Prop :=
| subseq_nil : subseq [] []
| subseq_skip : forall x l1 l2, subseq l1 l2 -> subseq l1 (x :: l2)
| subseq_keep : forall x l1 l2, subseq l1 l2 -> subseq (x :: l1) (x :: l2).

(** The options with another [--min-duration]. *)
Definition set_min_duration (d : Q) (cfg : Options) : Options :=
  mkOptions d (sf cfg) (frame_length cfg) (frame_shift cfg).

(** The loop goes on after [o] with the reader [rest]. *)
Definition and_then `{Numerics} (cfg : Options) (o : Outcome)
    (rest : list (string * WaveData)) : Outcome :=
  match o with
  | Finished w => run cfg rest w
  | Aborted e w => Aborted e w
  end.

(** ** Column standardization *)










(** ** Inputs for the examples *)

(** An instance of the numerics to run the examples with: a frame's features
    are its samples and standardization returns the matrix as it is. *)
Definition raw_numerics : Numerics :=
  {| frame_features := samples; standardize := fun f => f |}.

(** 8 kHz target rate, frames of 4 samples shifted by 2. *)
Definition example_options (min_dur : Q) : Options :=
  mkOptions min_dur 8000 4 2.

(** One channel of ten samples at 16 kHz. *)
Definition example_wave : WaveData :=
  mkWave 16000 [[1#1; 2#1; 3#1; 4#1; 5#1; 6#1; 7#1; 8#1; 9#1; 10#1]%Q].

(** A wave whose rate is not a multiple of the target rate: one channel of
    forty samples at 44.1 kHz. *)
Definition example_wave_44k : WaveData :=
  mkWave 44100 [List.repeat (1#1)%Q 40].

(** One channel of five samples at 16 kHz. *)
Definition five_sample_wave : WaveData :=
  mkWave 16000 [[1#1; 2#1; 3#1; 4#1; 5#1]%Q].

(** One channel without samples at 16 kHz. *)
Definition empty_wave : WaveData := mkWave 16000 [[]].

(** One channel of four samples at 16 kHz. *)
Definition short_wave : WaveData :=
  mkWave 16000 [[1#1; 2#1; 3#1; 4#1]%Q].

(** A reader of three utterances; with a threshold of 1/2000 s the second
    one is too short. *)
Definition example_reader : list (string * WaveData) :=
  [("utt1"%string, example_wave); ("utt2"%string, short_wave);
   ("utt3"%string, example_wave)].

(** Two channels of six samples at 32 kHz. *)
Definition stereo_wave_32k : WaveData :=
  mkWave 32000 [[1#1; 2#1; 3#1; 4#1; 5#1; 6#1]%Q;
                [3#1; 2#1; 1#1; 0#1; 1#1; 2#1]%Q].

(** The table of the notebook: one entry under the key TEST, whose wave file
    cannot be opened. *)
Definition notebook_entries : list Entry :=
  [mkEntry "TEST"%string None].


(** ** Facts on slicing *)

Lemma take_every_nth (A : Type) (p : nat) (l : list A) :
  forall c i, nth_error (take_every p c l) i = nth_error l (c + i * S p).
Proof.
  induction l as [|x t IH]; intros c i; simpl.
  - now destruct i; destruct (c + _).
  - destruct c as [|c'].
    + destruct i as [|i']; simpl; [reflexivity|].
      now rewrite IH.
    + simpl. apply IH.
Qed.

Lemma take_every_length (A : Type) (p : nat) (l : list A) :
  forall c, c <= p ->
  length (take_every p c l) = (length l + p - c) / S p.
Proof.
  induction l as [|x t IH]; intros c Hc; simpl take_every; simpl length.
  - symmetry. apply Nat.div_small. lia.
  - destruct c as [|c'].
    + simpl length. rewrite IH by lia.
      replace (S (length t) + p - 0) with (length t + p - p + 1 * S p) by lia.
      rewrite Nat.div_add by lia. lia.
    + rewrite IH by lia. reflexivity.
Qed.

Lemma ceil_div_spec (n k : Z) :
  (0 < k)%Z ->
  (k * (ceil_div n k - 1) < n <= k * ceil_div n k)%Z.
Proof.
  intros Hk. unfold ceil_div.
  pose proof (Z.div_mod (n + k - 1) k ltac:(lia)) as E.
  pose proof (Z.mod_pos_bound (n + k - 1) k Hk) as B.
  lia.
Qed.

Lemma ceil_div_exact (n k : Z) :
  (0 < k)%Z -> (n mod k = 0)%Z -> ceil_div n k = (n / k)%Z.
Proof.
  intros Hk Hm. unfold ceil_div.
  pose proof (Z.div_mod n k ltac:(lia)) as E. rewrite Hm in E.
  replace (n + k - 1)%Z with ((k - 1) + (n / k) * k)%Z by lia.
  rewrite Z.div_add by lia. rewrite Z.div_small by lia. lia.
Qed.

Lemma take_every_length_ceil (A : Type) (q : positive) (l : list A) :
  Z.of_nat (length (take_every (Pos.to_nat q - 1) 0 l))
  = ceil_div (Z.of_nat (length l)) (Zpos q).
Proof.
  rewrite take_every_length by lia. unfold ceil_div.
  pose proof (Pos2Nat.is_pos q) as Hq.
  replace (S (Pos.to_nat q - 1)) with (Pos.to_nat q) by lia.
  rewrite Nat2Z.inj_div, positive_nat_Z. f_equal. lia.
Qed.

Lemma take_every_index (A : Type) (q : positive) (l : list A) (i : nat) :
  nth_error (take_every (Pos.to_nat q - 1) 0 l) i
  = nth_error l (i * Pos.to_nat q).
Proof.
  rewrite take_every_nth. pose proof (Pos2Nat.is_pos q) as Hq.
  simpl. f_equal. f_equal. lia.
Qed.

Lemma hd_error_nth_error (A : Type) (l : list A) :
  hd_error l = nth_error l 0.
Proof. now destruct l. Qed.

(** ** Downsampling *)

(** C10: with a decimation ratio [k >= 1] the slice succeeds, keeps the
    number of channels, and in every channel the output sample at index [i]
    is the input sample at index [i * k] (past the end on both sides at the
    same time); the first sample of a channel is the first sample of its
    output; the output has [ceil(n / k)] samples, the least [q] with
    [n <= k * q]. *)
Theorem downsample_index_and_length (s : Matrix) (k : Z) :
  (1 <= k)%Z ->
  exists out,
    slice_cols k s = Ok out /\
    length out = length s /\
    forall c ch, nth_error s c = Some ch ->
      exists ch',
        nth_error out c = Some ch' /\
        (forall i, nth_error ch' i = nth_error ch (i * Z.to_nat k)) /\
        hd_error ch' = hd_error ch /\
        Z.of_nat (length ch') = ceil_div (Z.of_nat (length ch)) k /\
        (k * (Z.of_nat (length ch') - 1) < Z.of_nat (length ch)
         <= k * Z.of_nat (length ch'))%Z.
Proof.
  intros Hk. destruct k as [|q|q]; try lia.
  exists (map (take_every (Pos.to_nat q - 1) 0) s).
  split; [reflexivity|]. split; [apply length_map|].
  intros c ch Hc.
  exists (take_every (Pos.to_nat q - 1) 0 ch).
  split; [now rewrite nth_error_map, Hc|].
  assert (Hidx : forall i,
             nth_error (take_every (Pos.to_nat q - 1) 0 ch) i
             = nth_error ch (i * Z.to_nat (Z.pos q))).
  { intros i. rewrite take_every_index. now rewrite Z2Nat.inj_pos. }
  split; [exact Hidx|].
  split; [now rewrite !hd_error_nth_error, Hidx|].
  rewrite take_every_length_ceil.
  split; [reflexivity|]. apply ceil_div_spec. lia.
Qed.

Lemma downsample_index_and_length_witness :
  exists out,
    slice_cols 2 [[1#1; 2#1; 3#1; 4#1; 5#1]%Q] = Ok out /\
    nth_error out 0 = Some [1#1; 3#1; 5#1]%Q.
Proof.
  destruct (@downsample_index_and_length [[1#1; 2#1; 3#1; 4#1; 5#1]%Q] 2
              ltac:(lia)) as [out [E _]].
  exists out. split; [exact E|].
  vm_compute in E. injection E as <-. reflexivity.
Defined.

(** C1, as the specification states it, fails: a one-channel buffer of five
    samples at 16000 Hz, decimated to 8000 Hz (k = 2), comes out with three
    samples, and floor(5 / 2) is two. *)
Lemma downsample_floor_length_fails :
  valid_wave 5 five_sample_wave /\
  samp_freq five_sample_wave = (2 * 8000)%Z /\
  resample 8000 five_sample_wave = Ok [[1#1; 3#1; 5#1]%Q] /\
  ~ Forall (fun ch => Z.of_nat (length ch) = (Z.of_nat 5 / 2)%Z)
           [[1#1; 3#1; 5#1]%Q].
Proof.
  split; [|split; [|split]].
  - split; [reflexivity|]. split; [discriminate | repeat constructor].
  - reflexivity.
  - reflexivity.
  - intros H. inversion H as [|? ? Hlen _]; subst. vm_compute in Hlen.
    discriminate.
Qed.

Lemma resample_divisible (sf k : Z) (wav : WaveData) :
  (0 < k)%Z -> (0 < samp_freq wav)%Z -> samp_freq wav = (k * sf)%Z ->
  resample sf wav = slice_cols k (data wav).
Proof.
  intros Hk Hr E. unfold resample, py_assert, py_mod, py_int_div.
  assert (Hsf : (0 < sf)%Z) by nia.
  destruct (Z.leb_spec sf (samp_freq wav)) as [_|Hlt]; [|nia].
  destruct (Z.eqb_spec sf 0) as [->|_]; [lia|]. cbn [bind].
  rewrite E, Z.mod_mul by lia. cbn [Z.eqb bind].
  now rewrite Z.quot_mul by lia.
Qed.

(** C1, amended: for a valid buffer of [n] samples per channel whose rate is
    [k * sf] with [k] positive, the downsampling step succeeds, keeps the
    channels, and every channel of its output has exactly [ceil(n / k)]
    samples; that is [floor(n / k)] when [k] divides [n]. *)
Theorem downsample_length_ceil (sf k : Z) (n : nat) (wav : WaveData) :
  valid_wave n wav -> (0 < k)%Z -> samp_freq wav = (k * sf)%Z ->
  exists s,
    resample sf wav = Ok s /\
    length s = length (data wav) /\
    Forall (fun ch => Z.of_nat (length ch) = ceil_div (Z.of_nat n) k) s /\
    ((Z.of_nat n mod k = 0)%Z ->
     Forall (fun ch => Z.of_nat (length ch) = (Z.of_nat n / k)%Z) s).
Proof.
  intros (Hr & _ & Hlen) Hk E.
  rewrite (resample_divisible sf wav Hk Hr E).
  destruct k as [|q|q]; try lia. cbn [slice_cols].
  eexists. split; [reflexivity|]. split; [apply length_map|].
  assert (Hceil : Forall
            (fun ch => Z.of_nat (length ch) = ceil_div (Z.of_nat n) (Z.pos q))
            (map (take_every (Pos.to_nat q - 1) 0) (data wav))).
  { apply Forall_map. eapply Forall_impl; [|exact Hlen].
    intros ch Hch. cbv beta in *. now rewrite take_every_length_ceil, Hch. }
  split; [exact Hceil|].
  intros Hdiv. eapply Forall_impl; [|exact Hceil].
  intros ch Hch. cbv beta in *. now rewrite Hch, ceil_div_exact.
Qed.

Lemma downsample_length_ceil_witness :
  exists s,
    resample 8000 five_sample_wave = Ok s /\
    Forall (fun ch => Z.of_nat (length ch) = ceil_div 5 2) s.
Proof.
  destruct (@downsample_length_ceil 8000 2 5 five_sample_wave)
    as (s & E & _ & F & _).
  - repeat split; [discriminate | repeat constructor].
  - lia.
  - reflexivity.
  - exists s. split; [exact E | exact F].
Defined.

(** ** The rate assertions *)

(** With a zero target rate the modulo of line 161 raises before its
    assertion is evaluated. *)
Lemma resample_zero_rate (wav : WaveData) :
  (0 <= samp_freq wav)%Z -> resample 0 wav = Raise ZeroDivisionError.
Proof.
  intros Hr. unfold resample, py_assert.
  destruct (Z.leb_spec 0 (samp_freq wav)); [reflexivity | lia].
Qed.

(** C2, as the specification states it for every target rate, fails at the
    target rate 0: for the ten-sample buffer at 16000 Hz the condition
    [samp_freq % sf == 0] does not hold, and the step ends in
    [ZeroDivisionError], raised by the modulo of line 161, not in the
    [AssertionError] of a rate assertion. *)
Lemma resample_zero_target_other_error :
  ~ (0 <= samp_freq example_wave /\ samp_freq example_wave mod 0 = 0)%Z /\
  resample 0 example_wave = Raise ZeroDivisionError /\
  resample 0 example_wave <> Raise AssertionError.
Proof.
  split; [|split].
  - intros [_ Hm]. discriminate Hm.
  - reflexivity.
  - discriminate.
Qed.

(** C2, amended: for every buffer and every nonzero target rate [sf], the
    resample step fails with [AssertionError], the failure of the rate
    assertions, and with nothing else, whenever [samp_freq >= sf] or
    [samp_freq % sf == 0] is violated; hence it succeeds only when both
    hold, and for a positive [sf] it does succeed then. *)
Theorem resample_rate_requirements (sf : Z) (wav : WaveData) :
  sf <> 0%Z ->
  (~ (sf <= samp_freq wav /\ samp_freq wav mod sf = 0)%Z ->
   resample sf wav = Raise AssertionError) /\
  (forall s, resample sf wav = Ok s ->
   (sf <= samp_freq wav /\ samp_freq wav mod sf = 0)%Z) /\
  ((0 < sf)%Z -> (sf <= samp_freq wav /\ samp_freq wav mod sf = 0)%Z ->
   exists s, resample sf wav = Ok s).
Proof.
  intros Hsf.
  assert (Hfail : ~ (sf <= samp_freq wav /\ samp_freq wav mod sf = 0)%Z ->
                  resample sf wav = Raise AssertionError).
  { intros Hn. unfold resample, py_assert, py_mod.
    destruct (Z.leb_spec sf (samp_freq wav)) as [Hle|Hlt]; [|reflexivity].
    destruct (Z.eqb_spec sf 0) as [E|_]; [contradiction|]. cbn [bind].
    destruct (Z.eqb_spec (samp_freq wav mod sf) 0) as [Hm|Hm]; [|reflexivity].
    exfalso. apply Hn. now split. }
  split; [exact Hfail|]. split.
  - intros s Hs.
    destruct (Z_le_dec sf (samp_freq wav)) as [Hle|Hle];
      [destruct (Z.eq_dec (samp_freq wav mod sf) 0) as [Hm|Hm]|].
    + now split.
    + rewrite Hfail in Hs by tauto. discriminate.
    + rewrite Hfail in Hs by tauto. discriminate.
  - intros Hpos [Hle Hm].
    apply Z.mod_divide in Hm; [|exact Hsf]. destruct Hm as [k Hk].
    assert (Hkpos : (0 < k)%Z) by nia.
    rewrite (resample_divisible sf wav Hkpos ltac:(lia) Hk).
    destruct k as [|q|q]; try lia. eexists. reflexivity.
Qed.

Lemma resample_rate_requirements_witness :
  resample 8000 (mkWave 44100 [[1#1; 2#1; 3#1]%Q]) = Raise AssertionError /\
  resample 8000 (mkWave 4000 [[1#1; 2#1; 3#1]%Q]) = Raise AssertionError /\
  exists s, resample 8000 (mkWave 16000 [[1#1; 2#1; 3#1]%Q]) = Ok s.
Proof.
  split; [|split].
  - apply (@resample_rate_requirements 8000 (mkWave 44100 [[1#1; 2#1; 3#1]%Q]));
      [discriminate|]. cbn. intros [_ H]. discriminate H.
  - apply (@resample_rate_requirements 8000 (mkWave 4000 [[1#1; 2#1; 3#1]%Q]));
      [discriminate|]. cbn. intros [H _]. apply H. reflexivity.
  - apply (@resample_rate_requirements 8000 (mkWave 16000 [[1#1; 2#1; 3#1]%Q]));
      [discriminate | reflexivity | ]. cbn. split; [discriminate | reflexivity].
Defined.

(** ** Downmix *)

Lemma Qdiv_one (x : Q) : (x / inject_Z 1)%Q = x.
Proof.
  destruct x as [a b]. unfold Qdiv, Qmult, Qinv, inject_Z. cbn.
  now rewrite Z.mul_1_r, Pos.mul_1_r.
Qed.

(** C5: on a buffer with exactly one channel the downmix returns the samples
    of that channel, value for value. *)
Theorem downmix_single_channel (s : list (list Q)) :
  length s = 1 ->
  exists ch, s = [ch] /\ mean_axis0 s = ch.
Proof.
  intros Hlen. destruct s as [|ch [|ch' rest]]; try discriminate.
  exists ch. split; [reflexivity|].
  unfold mean_axis0. cbn [fold_left length Z.of_nat Pos.of_succ_nat].
  induction ch as [|x t IH]; [reflexivity|].
  cbn [map]. now rewrite Qdiv_one, IH.
Qed.

Lemma downmix_single_channel_witness :
  exists ch, [[11891#1; 28260#1; 0#1; 1#3]%Q] = [ch] /\
             mean_axis0 [[11891#1; 28260#1; 0#1; 1#3]%Q] = ch.
Proof.
  apply (@downmix_single_channel [[11891#1; 28260#1; 0#1; 1#3]%Q]).
  reflexivity.
Defined.

(** ** Frame extraction *)

Lemma filter_none (A : Type) (f : A -> bool) (l : list A) :
  (forall x, In x l -> f x = false) -> filter f l = [].
Proof.
  induction l as [|x t IH]; intros Hall; [reflexivity|].
  cbn. rewrite (Hall x) by now left.
  apply IH. intros y Hy. apply Hall. now right.
Qed.

(** The candidate frame at offset [off] has [min fl (n - off)] samples. *)
Lemma candidate_length (fl off : nat) (m : list Q) :
  length (firstn fl (skipn off m)) = Nat.min fl (length m - off).
Proof. now rewrite length_firstn, length_skipn. Qed.

(** A signal shorter than a frame yields no frame at all. *)
Lemma extract_frames_short (fl fs : nat) (m : list Q) :
  length m < fl -> extract_frames fl fs m = [].
Proof.
  intros Hlt. unfold extract_frames. apply filter_none.
  intros fr Hin. apply in_map_iff in Hin. destruct Hin as (i & <- & _).
  cbn [samples]. rewrite candidate_length. apply Nat.eqb_neq. lia.
Qed.

(** A signal of exactly one frame length yields the frame at offset 0. *)
Lemma extract_frames_exact (fl fs : nat) (m : list Q) :
  0 < fs -> length m = fl -> extract_frames fl fs m = [mkFrame 0 m].
Proof.
  intros Hfs Hlen. unfold extract_frames.
  rewrite <- cons_seq. cbn [map filter Nat.mul skipn samples].
  rewrite firstn_all2 by lia.
  rewrite Hlen, Nat.eqb_refl. f_equal.
  apply filter_none.
  intros fr Hin. apply in_map_iff in Hin. destruct Hin as (i & <- & Hi).
  apply in_seq in Hi. cbn [samples]. rewrite candidate_length.
  apply Nat.eqb_neq. nia.
Qed.

Lemma filter_all (A : Type) (f : A -> bool) (l : list A) :
  (forall x, In x l -> f x = true) -> filter f l = l.
Proof.
  induction l as [|x t IH]; intros Hall; [reflexivity|].
  cbn. rewrite (Hall x) by now left.
  f_equal. apply IH. intros y Hy. apply Hall. now right.
Qed.

(** The number of frames: none below one frame length, and from there on
    one more for every whole shift that fits behind the first frame. *)
Lemma extract_frames_count (fl fs : nat) (m : list Q) :
  0 < fl -> 0 < fs ->
  length (extract_frames fl fs m)
  = if length m <? fl then 0 else (length m - fl) / fs + 1.
Proof.
  intros Hfl Hfs. destruct (Nat.ltb_spec (length m) fl) as [Hlt|Hge].
  - now rewrite extract_frames_short.
  - unfold extract_frames.
    set (n := length m) in *.
    pose proof (Nat.div_mod_eq (n - fl) fs) as Hdm.
    pose proof (Nat.mod_upper_bound (n - fl) fs ltac:(lia)) as Hmb.
    set (q := (n - fl) / fs) in *. set (r := (n - fl) mod fs) in *.
    set (cnt := q + 1).
    assert (Hq : q <= fs * q) by nia.
    assert (Hcnt : cnt <= S n) by (unfold cnt; lia).
    replace (S n) with (cnt + (S n - cnt)) by lia.
    rewrite seq_app, map_app, filter_app, length_app.
    rewrite filter_all, filter_none.
    + rewrite length_map, length_seq. cbn. lia.
    + intros fr Hin. apply in_map_iff in Hin. destruct Hin as (i & <- & Hi).
      apply in_seq in Hi. cbn [samples]. rewrite candidate_length.
      apply Nat.eqb_neq. fold n. unfold cnt in Hi. nia.
    + intros fr Hin. apply in_map_iff in Hin. destruct Hin as (i & <- & Hi).
      apply in_seq in Hi. cbn [samples]. rewrite candidate_length.
      apply Nat.eqb_eq. fold n. unfold cnt in Hi. nia.
Qed.

(** C8: with a positive frame shift, a signal of exactly [frame_length]
    samples yields exactly one analysis frame (the one at offset 0, holding
    the whole signal) and so a feature matrix of one row; a signal strictly
    shorter than [frame_length] yields no frame and the empty feature
    matrix, a value and not an exception. *)
Theorem frames_of_exact_and_short_signal `{Numerics} (cfg : Options)
    (m : list Q) :
  0 < frame_shift cfg ->
  (length m = frame_length cfg ->
   extract_frames (frame_length cfg) (frame_shift cfg) m = [mkFrame 0 m] /\
   length (compute_features cfg m) = 1) /\
  (length m < frame_length cfg ->
   extract_frames (frame_length cfg) (frame_shift cfg) m = [] /\
   compute_features cfg m = []).
Proof.
  intros Hfs. split.
  - intros Hlen. unfold compute_features.
    now rewrite (extract_frames_exact m Hfs Hlen).
  - intros Hlt. unfold compute_features.
    now rewrite (extract_frames_short (frame_shift cfg) m Hlt).
Qed.

Lemma frames_of_exact_and_short_signal_witness :
  extract_frames 4 2 [1#1; 2#1; 3#1; 4#1]%Q
    = [mkFrame 0 [1#1; 2#1; 3#1; 4#1]%Q] /\
  extract_frames 4 2 [1#1; 2#1; 3#1]%Q = [].
Proof.
  split.
  - apply (@frames_of_exact_and_short_signal raw_numerics
             (example_options 0) [1#1; 2#1; 3#1; 4#1]%Q);
      [cbn; lia | reflexivity].
  - apply (@frames_of_exact_and_short_signal raw_numerics
             (example_options 0) [1#1; 2#1; 3#1]%Q);
      [cbn; lia | cbn; lia].
Defined.

(** ** Standardizing a matrix without rows *)

Lemma take_every_nil (A : Type) (p c : nat) : take_every p c (@nil A) = [].
Proof. reflexivity. Qed.

Lemma slice_cols_empty_rows (k : Z) (s : list (list Q)) :
  (0 < k)%Z -> Forall (fun ch => ch = []) s ->
  exists s', slice_cols k s = Ok s' /\ Forall (fun ch => ch = []) s'.
Proof.
  intros Hk Hs. destruct k as [|q|q]; try lia.
  eexists. split; [reflexivity|].
  apply Forall_map. eapply Forall_impl; [|exact Hs].
  intros ch ->. reflexivity.
Qed.

Lemma fold_add_rows_nil (rs : list (list Q)) :
  fold_left add_rows rs [] = [].
Proof. induction rs as [|r rs IH]; [reflexivity | exact IH]. Qed.

Lemma mean_axis0_empty_rows (s : list (list Q)) :
  Forall (fun ch => ch = []) s -> mean_axis0 s = [].
Proof.
  intros Hs. destruct s as [|r rs]; [reflexivity|].
  inversion Hs as [|? ? Hr _]; subst. unfold mean_axis0.
  now rewrite fold_add_rows_nil.
Qed.

(** C3: the standardizer fails with [DegenerateInputError] on every matrix
    without rows; and on a buffer without samples, whose rate passes the
    rate assertions for a positive target rate, with a positive frame
    length, the feature matrix that reaches the standardizer has no rows and
    the pipeline ends in that exception. *)
Theorem standardize_zero_rows `{Numerics} (cfg : Options) (wav : WaveData) :
  (forall f : list (list Q), length f = 0 ->
     scale f = Raise DegenerateInputError) /\
  ((0 < sf cfg)%Z -> (sf cfg <= samp_freq wav)%Z ->
   (samp_freq wav mod sf cfg = 0)%Z -> 0 < frame_length cfg ->
   Forall (fun ch => ch = []) (data wav) ->
   exists s,
     resample (sf cfg) wav = Ok s /\
     compute_features cfg (mean_axis0 s) = [] /\
     process cfg wav = Raise DegenerateInputError).
Proof.
  split.
  - intros f Hf. destruct f; [reflexivity | discriminate].
  - intros Hsf Hle Hmod Hfl Hempty.
    apply Z.mod_divide in Hmod; [|lia]. destruct Hmod as [k Hk].
    assert (Hkpos : (0 < k)%Z) by nia.
    destruct (slice_cols_empty_rows Hkpos Hempty) as (s & Hs & Hs').
    exists s. unfold process.
    rewrite (resample_divisible (sf cfg) wav Hkpos ltac:(lia) Hk), Hs.
    cbn [bind]. rewrite (mean_axis0_empty_rows Hs').
    unfold compute_features.
    rewrite (@extract_frames_short (frame_length cfg) (frame_shift cfg) [] Hfl).
    repeat split.
Qed.

Lemma standardize_zero_rows_witness :
  @process raw_numerics (example_options 0) empty_wave
  = Raise DegenerateInputError.
Proof.
  destruct (@standardize_zero_rows raw_numerics (example_options 0) empty_wave)
    as [_ Hrun].
  destruct Hrun as (s & _ & _ & E).
  - reflexivity.
  - discriminate.
  - reflexivity.
  - cbn; lia.
  - repeat constructor.
  - exact E.
Defined.

(** ** The duration filter *)

Lemma below_min_iff (cfg : Options) (wav : WaveData) :
  below_min cfg wav = true <-> (duration wav < min_duration cfg)%Q.
Proof.
  unfold below_min. rewrite Qlt_alt.
  destruct (duration wav ?= min_duration cfg)%Q; split; congruence.
Qed.

Lemma app_singleton_neq (A : Type) (l : list A) (x : A) : l ++ [x] <> l.
Proof.
  intros E. apply (f_equal (@length A)) in E.
  rewrite length_app in E. cbn in E. lia.
Qed.

(** C4: a pass through the loop body hands the table on untouched and
    without an exception exactly when the duration is strictly below the
    threshold, whatever the pipeline would do on that buffer; the loop then
    goes on with the rest of the reader.  Otherwise the pass is the pipeline
    run on the buffer, and so is the loop on an item it takes from the
    reader: an exception of the pipeline leaves the loop with the table as
    it was, its feature matrix is written under the key and the loop goes
    on from the extended table. *)
Theorem duration_filter `{Numerics} (cfg : Options) (key : string)
    (wav : WaveData) (w : Table) :
  (iteration cfg (key, wav) w = Ok w <->
   (duration wav < min_duration cfg)%Q) /\
  ((duration wav < min_duration cfg)%Q ->
   forall rest, run cfg ((key, wav) :: rest) w = run cfg rest w) /\
  (~ (duration wav < min_duration cfg)%Q ->
   iteration cfg (key, wav) w
   = (f <- process cfg wav ;; Ok (w ++ [(key, f)]))) /\
  (~ (duration wav < min_duration cfg)%Q ->
   forall rest,
     run cfg ((key, wav) :: rest) w
     = match process cfg wav with
       | Ok f => run cfg rest (w ++ [(key, f)])
       | Raise e => Aborted e w
       end).
Proof.
  pose proof (below_min_iff cfg wav) as Hb.
  cbn [run]. unfold iteration.
  destruct (below_min cfg wav) eqn:E.
  - assert (Hlt : (duration wav < min_duration cfg)%Q) by now apply Hb.
    split; [tauto|]. split; [reflexivity|]. split; [tauto|].
    intros Hge. contradiction.
  - assert (Hge : ~ (duration wav < min_duration cfg)%Q).
    { intros Hlt. apply Hb in Hlt. discriminate. }
    split; [|split; [tauto | split; [reflexivity|]]].
    + split; [|tauto].
      destruct (process cfg wav) as [f|e]; cbn [bind]; intros Heq.
      * injection Heq as Heq. now apply app_singleton_neq in Heq.
      * discriminate.
    + intros _ rest. now destruct (process cfg wav).
Qed.

Lemma duration_filter_witness :
  @iteration raw_numerics (example_options (1#1000))
     ("utt1"%string, example_wave_44k) []
  = Ok [] /\
  @run raw_numerics (example_options (1#1000))
     [("utt1"%string, example_wave_44k)] []
  = Finished [] /\
  @iteration raw_numerics (example_options 0)
     ("utt1"%string, example_wave_44k) []
  = Raise AssertionError /\
  @run raw_numerics (example_options 0)
     [("utt1"%string, example_wave_44k); ("utt2"%string, example_wave)] []
  = Aborted AssertionError [] /\
  @run raw_numerics (example_options 0)
     [("utt1"%string, example_wave)] []
  = Finished [("utt1"%string, [[1#1; 3#1; 5#1; 7#1]%Q])].
Proof.
  destruct (@duration_filter raw_numerics (example_options (1#1000))
              "utt1"%string example_wave_44k []) as (Hiff & Hskip & _ & _).
  destruct (@duration_filter raw_numerics (example_options 0)
              "utt1"%string example_wave_44k []) as (_ & _ & Hbody & Hloop).
  destruct (@duration_filter raw_numerics (example_options 0)
              "utt1"%string example_wave []) as (_ & _ & _ & Hloop').
  split; [|split; [|split; [|split]]].
  - apply Hiff. reflexivity.
  - rewrite Hskip; reflexivity.
  - rewrite Hbody; [reflexivity|]. intros Hlt. discriminate Hlt.
  - rewrite Hloop; [reflexivity|]. intros Hlt. discriminate Hlt.
  - rewrite Hloop'; [reflexivity|]. intros Hlt. discriminate Hlt.
Defined.

(** ** The loop as a relation and as a function *)

Lemma exec_run `{Numerics} (cfg : Options) (reader : list (string * WaveData)) :
  forall w, exec cfg reader w (run cfg reader w).
Proof.
  induction reader as [|[key wav] rest IH]; intros w; cbn [run].
  - constructor.
  - unfold iteration. pose proof (below_min_iff cfg wav) as Hb.
    destruct (below_min cfg wav) eqn:E.
    + apply exec_continue; [now apply Hb | apply IH].
    + assert (Hge : ~ (duration wav < min_duration cfg)%Q).
      { intros Hlt. apply Hb in Hlt. discriminate. }
      destruct (process cfg wav) as [f|e] eqn:P; cbn [bind].
      * eapply exec_write; eauto.
      * now apply exec_raise.
Qed.

Lemma exec_functional `{Numerics} (cfg : Options)
    (reader : list (string * WaveData)) (w : Table) (o1 o2 : Outcome) :
  exec cfg reader w o1 -> exec cfg reader w o2 -> o1 = o2.
Proof.
  intros H1. revert o2.
  induction H1 as [w | key wav rest w o Hlt _ IH
                     | key wav rest w f o Hge P _ IH
                     | key wav rest w e Hge P];
    intros o2 H2; inversion H2; subst; try contradiction; try congruence.
  - now apply IH.
  - apply IH. congruence.
Qed.

(** ** What the loop writes *)

Lemma run_written `{Numerics} (cfg : Options)
    (reader : list (string * WaveData)) :
  forall w0,
    written (run cfg reader w0)
    = w0 ++ flat_map (record_of cfg) (items_read cfg reader).
Proof.
  induction reader as [|[key wav] rest IH]; intros w0;
    cbn [run items_read].
  - cbn. now rewrite app_nil_r.
  - unfold iteration. destruct (below_min cfg wav) eqn:E.
    + rewrite IH. cbn [flat_map record_of]. now rewrite E.
    + destruct (process cfg wav) as [f|e] eqn:P; cbn [bind].
      * rewrite IH. cbn [flat_map record_of]. rewrite E, P.
        now rewrite <- app_assoc.
      * cbn [written flat_map record_of]. rewrite E, P. now rewrite app_nil_r.
Qed.

Lemma run_finished_reads_all `{Numerics} (cfg : Options)
    (reader : list (string * WaveData)) :
  forall w0 w, run cfg reader w0 = Finished w -> items_read cfg reader = reader.
Proof.
  induction reader as [|[key wav] rest IH]; intros w0 w; cbn [run items_read].
  - reflexivity.
  - unfold iteration. destruct (below_min cfg wav) eqn:E.
    + intros Hrun. f_equal. eapply IH; eauto.
    + destruct (process cfg wav) as [f|e] eqn:P; cbn [bind].
      * intros Hrun. f_equal. eapply IH; eauto.
      * discriminate.
Qed.

(** C9: the table the loop leaves is the table it started from followed, in
    source order, by one record for every item it read that passes the
    duration filter and on which the pipeline succeeds, under the key of
    that item and holding the feature matrix of its buffer, and by nothing
    else; when the loop finishes, the items read are the whole reader. *)
Theorem one_record_per_processed_item `{Numerics} (cfg : Options)
    (reader : list (string * WaveData)) (w0 : Table) :
  written (run cfg reader w0)
  = w0 ++ flat_map (record_of cfg) (items_read cfg reader) /\
  (forall w, run cfg reader w0 = Finished w ->
     w = w0 ++ flat_map (record_of cfg) reader).
Proof.
  split; [apply run_written|].
  intros w Hrun. pose proof (run_written cfg reader w0) as Hw.
  rewrite Hrun in Hw. cbn [written] in Hw.
  now rewrite (run_finished_reads_all cfg reader w0 Hrun) in Hw.
Qed.

Lemma one_record_per_processed_item_witness :
  [("utt1"%string, [[1#1; 3#1; 5#1; 7#1]%Q]);
   ("utt3"%string, [[1#1; 3#1; 5#1; 7#1]%Q])]
  = [] ++ flat_map (@record_of raw_numerics (example_options (1#2000)))
                   example_reader.
Proof.
  apply (@one_record_per_processed_item raw_numerics
           (example_options (1#2000)) example_reader []).
  reflexivity.
Defined.

(** ** More on the resample step *)

Lemma take_every_all (A : Type) (l : list A) : take_every 0 0 l = l.
Proof. induction l as [|x t IH]; [reflexivity|]. cbn. now rewrite IH. Qed.

(** X1: when the buffer is already at the target rate, the resample step
    succeeds and hands the data on unchanged: no sample is dropped. *)
Theorem resample_same_rate (wav : WaveData) :
  (0 < samp_freq wav)%Z ->
  resample (samp_freq wav) wav = Ok (data wav).
Proof.
  intros Hr.
  rewrite (@resample_divisible (samp_freq wav) 1 wav) by lia.
  cbn [slice_cols]. f_equal.
  replace (Pos.to_nat 1 - 1) with 0 by reflexivity.
  rewrite <- (map_id (data wav)) at 2.
  apply map_ext. intros ch. apply take_every_all.
Qed.

Lemma resample_same_rate_witness :
  resample 16000 example_wave = Ok (data example_wave).
Proof.
  apply (@resample_same_rate example_wave). reflexivity.
Defined.

(** X2: on a buffer with a positive rate the resample step raises
    [ZeroDivisionError] exactly when the target rate is zero (the modulo of
    the second assertion is evaluated first), and it never raises
    [ValueError]: the slice step is never zero. *)
Theorem resample_error_kinds (sf : Z) (wav : WaveData) :
  (0 < samp_freq wav)%Z ->
  (resample sf wav = Raise ZeroDivisionError <-> sf = 0%Z) /\
  resample sf wav <> Raise ValueError.
Proof.
  intros Hr. unfold resample, py_assert, py_mod, py_int_div.
  destruct (Z.leb_spec sf (samp_freq wav)) as [Hle|Hlt]; cbn [bind].
  2:{ split; [split; [discriminate | lia] | discriminate]. }
  destruct (Z.eqb_spec sf 0) as [E|Hsf]; cbn [bind].
  { split; [tauto | discriminate]. }
  destruct (Z.eqb_spec (samp_freq wav mod sf) 0) as [Hm|Hm]; cbn [bind].
  2:{ split; [split; [discriminate | contradiction] | discriminate]. }
  apply Z.mod_divide in Hm; [|exact Hsf]. destruct Hm as [c Hc].
  rewrite Hc, Z.quot_mul by exact Hsf.
  destruct c as [|q|q]; [lia| |]; cbn [slice_cols];
    (split; [split; [discriminate | contradiction] | discriminate]).
Qed.

Lemma resample_error_kinds_witness :
  resample 0 example_wave = Raise ZeroDivisionError.
Proof.
  apply (@resample_error_kinds 0 example_wave); reflexivity.
Defined.

Lemma take_every_twice (A : Type) (p q : positive) (l : list A) :
  take_every (Pos.to_nat q - 1) 0 (take_every (Pos.to_nat p - 1) 0 l)
  = take_every (Pos.to_nat (p * q) - 1) 0 l.
Proof.
  apply nth_error_ext. intros i.
  rewrite !take_every_index, Pos2Nat.inj_mul. f_equal. lia.
Qed.

Lemma slice_cols_twice (a b : Z) (s : list (list Q)) :
  (0 < a)%Z -> (0 < b)%Z ->
  (s' <- slice_cols a s ;; slice_cols b s') = slice_cols (a * b) s.
Proof.
  intros Ha Hb. destruct a as [|p|p]; try lia. destruct b as [|q|q]; try lia.
  cbn [slice_cols bind Z.mul]. f_equal. rewrite map_map.
  apply map_ext. intros ch. apply take_every_twice.
Qed.

(** X3: decimation composes.  For a buffer whose rate is [a * b * sf],
    resampling to [sf] in one step gives the same matrix as resampling to
    the intermediate rate [b * sf] first and resampling the result, taken as
    a buffer at that rate, to [sf]. *)
Theorem resample_in_two_steps (a b sf : Z) (wav : WaveData) :
  (0 < a)%Z -> (0 < b)%Z -> (0 < sf)%Z ->
  samp_freq wav = (a * b * sf)%Z ->
  resample sf wav
  = (s <- resample (b * sf) wav ;; resample sf (mkWave (b * sf) s)).
Proof.
  intros Ha Hb Hsf Hr.
  assert (Hpos : (0 < samp_freq wav)%Z) by nia.
  rewrite (@resample_divisible sf (a * b) wav) by (try nia; assumption).
  rewrite (@resample_divisible (b * sf) a wav) by (try nia; lia).
  rewrite <- (slice_cols_twice (data wav) Ha Hb).
  destruct (slice_cols a (data wav)) as [s|e]; cbn [bind]; [|reflexivity].
  rewrite (@resample_divisible sf b (mkWave (b * sf) s)); cbn; try nia.
  reflexivity.
Qed.

Lemma resample_in_two_steps_witness :
  resample 8000 stereo_wave_32k
  = (s <- resample 16000 stereo_wave_32k ;; resample 8000 (mkWave 16000 s)).
Proof.
  apply (@resample_in_two_steps 2 2 8000 stereo_wave_32k); reflexivity.
Defined.

(** ** Downsampling and downmix together *)

Lemma take_every_map (A B : Type) (f : A -> B) (p : nat) (l : list A) :
  forall c, take_every p c (map f l) = map f (take_every p c l).
Proof.
  induction l as [|x t IH]; intros c; [reflexivity|].
  destruct c as [|c']; cbn; now rewrite IH.
Qed.

Lemma add_rows_nil_r (a : list Q) : add_rows a [] = [].
Proof. now destruct a. Qed.

Lemma take_every_add_rows (p : nat) (a : list Q) :
  forall b c,
    take_every p c (add_rows a b)
    = add_rows (take_every p c a) (take_every p c b).
Proof.
  induction a as [|x a' IH]; intros b c; [reflexivity|].
  destruct b as [|y b']; [cbn; now rewrite add_rows_nil_r|].
  destruct c as [|c']; cbn; now rewrite IH.
Qed.

Lemma take_every_fold_add_rows (p c : nat) (rs : list (list Q)) :
  forall r,
    take_every p c (fold_left add_rows rs r)
    = fold_left add_rows (map (take_every p c) rs) (take_every p c r).
Proof.
  induction rs as [|r' rs IH]; intros r; [reflexivity|].
  cbn [fold_left map]. now rewrite IH, take_every_add_rows.
Qed.

(** X4: downsampling and downmix commute: the mean over the channels of the
    decimated matrix, [mean(s[:, ::k], axis=0)], is the decimated mean over
    the channels of the matrix, [mean(s, axis=0)[::k]], for every matrix and
    every step [k >= 1]. *)
Theorem downmix_of_downsampled (k : Z) (s : list (list Q)) :
  (1 <= k)%Z ->
  exists s',
    slice_cols k s = Ok s' /\
    mean_axis0 s' = take_every (Z.to_nat k - 1) 0 (mean_axis0 s).
Proof.
  intros Hk. destruct k as [|q|q]; try lia.
  eexists. split; [reflexivity|].
  rewrite Z2Nat.inj_pos.
  destruct s as [|r rs]; [reflexivity|].
  unfold mean_axis0. cbn [map].
  rewrite take_every_map, take_every_fold_add_rows.
  cbn [length]. now rewrite length_map.
Qed.

Lemma downmix_of_downsampled_witness :
  exists s',
    slice_cols 2 (data stereo_wave_32k) = Ok s' /\
    mean_axis0 s' = take_every 1 0 (mean_axis0 (data stereo_wave_32k)).
Proof.
  apply (@downmix_of_downsampled 2 (data stereo_wave_32k)). lia.
Defined.

Lemma add_rows_length (a b : list Q) :
  length (add_rows a b) = Nat.min (length a) (length b).
Proof.
  revert b. induction a as [|x a' IH]; intros [|y b']; cbn; auto.
Qed.

Lemma fold_add_rows_length (n : nat) (rs : list (list Q)) :
  Forall (fun ch => length ch = n) rs ->
  forall r, length r = n -> length (fold_left add_rows rs r) = n.
Proof.
  induction 1 as [|r' rs Hr' _ IH]; intros r Hr; [exact Hr|].
  cbn [fold_left]. apply IH. rewrite add_rows_length. lia.
Qed.

Lemma mean_axis0_length (n : nat) (s : list (list Q)) :
  s <> [] -> Forall (fun ch => length ch = n) s ->
  length (mean_axis0 s) = n.
Proof.
  intros Hne Hall. destruct s as [|r rs]; [contradiction|].
  inversion Hall as [|? ? Hr Hrs]; subst.
  unfold mean_axis0. rewrite length_map.
  now apply fold_add_rows_length.
Qed.

(** X5: for a valid buffer of [n] samples per channel, however many
    channels, whose rate is [k * sf] with [k] positive, the mono signal
    handed to the feature extractor has exactly [ceil(n / k)] samples. *)
Theorem mono_signal_length (sf k : Z) (n : nat) (wav : WaveData) :
  valid_wave n wav -> (0 < k)%Z -> samp_freq wav = (k * sf)%Z ->
  exists s,
    resample sf wav = Ok s /\
    Z.of_nat (length (mean_axis0 s)) = ceil_div (Z.of_nat n) k.
Proof.
  intros (Hr & Hne & Hlen) Hk E.
  rewrite (resample_divisible sf wav Hk Hr E).
  destruct k as [|q|q]; try lia. cbn [slice_cols].
  eexists. split; [reflexivity|].
  set (m := length (take_every (Pos.to_nat q - 1) 0 (repeat 0%Q n))).
  assert (Hm : Z.of_nat m = ceil_div (Z.of_nat n) (Z.pos q)).
  { unfold m. now rewrite take_every_length_ceil, repeat_length. }
  rewrite <- Hm. f_equal. apply mean_axis0_length.
  - destruct (data wav); [contradiction | discriminate].
  - apply Forall_map. eapply Forall_impl; [|exact Hlen].
    intros ch Hch. cbv beta. unfold m.
    rewrite !take_every_length by lia. now rewrite repeat_length, Hch.
Qed.

Lemma mono_signal_length_witness :
  exists s,
    resample 8000 stereo_wave_32k = Ok s /\
    Z.of_nat (length (mean_axis0 s)) = ceil_div 6 4.
Proof.
  apply (@mono_signal_length 8000 4 6 stereo_wave_32k).
  - split; [reflexivity|]. split; [discriminate | repeat constructor].
  - lia.
  - reflexivity.
Defined.

(** ** More on the duration filter *)

Lemma duration_nonneg (wav : WaveData) :
  (0 <= samp_freq wav)%Z -> (0 <= duration wav)%Q.
Proof.
  intros Hr. unfold duration, Qdiv. apply Qmult_le_0_compat.
  - change 0%Q with (inject_Z 0). rewrite <- Zle_Qle. lia.
  - apply Qinv_le_0_compat.
    change 0%Q with (inject_Z 0). now rewrite <- Zle_Qle.
Qed.

(** X6: with a threshold that is not positive, as the default 0.0 of
    [min-duration], no buffer with a non-negative rate is skipped, not even
    one without samples: every pass through the body is the pipeline run on
    the buffer. *)
Theorem nonpositive_threshold_skips_nothing `{Numerics} (cfg : Options)
    (key : string) (wav : WaveData) (w : Table) :
  (min_duration cfg <= 0)%Q -> (0 <= samp_freq wav)%Z ->
  iteration cfg (key, wav) w
  = (f <- process cfg wav ;; Ok (w ++ [(key, f)])).
Proof.
  intros Hmin Hr. unfold iteration.
  destruct (below_min cfg wav) eqn:E; [|reflexivity].
  apply below_min_iff in E. exfalso.
  apply (Qlt_not_le _ _ E).
  apply Qle_trans with 0%Q; [exact Hmin | now apply duration_nonneg].
Qed.

Lemma nonpositive_threshold_skips_nothing_witness :
  @iteration raw_numerics (example_options 0) ("utt"%string, empty_wave) []
  = Raise DegenerateInputError.
Proof.
  rewrite (@nonpositive_threshold_skips_nothing raw_numerics
             (example_options 0) "utt"%string empty_wave []).
  - reflexivity.
  - cbn. discriminate.
  - cbn. discriminate.
Defined.

(** ** More on the loop *)

Lemma run_concat `{Numerics} (cfg : Options)
    (r1 r2 : list (string * WaveData)) :
  forall w, run cfg (r1 ++ r2) w = and_then cfg (run cfg r1 w) r2.
Proof.
  induction r1 as [|item r1 IH]; intros w; [reflexivity|].
  cbn [app run]. destruct (iteration cfg item w) as [w'|e]; [apply IH|].
  reflexivity.
Qed.

(** X7: the loop over a reader made of two parts is the loop over the first
    part followed, when that one finishes, by the loop over the second part
    from the table it left; an exception in the first part is the outcome
    of the whole. *)
Theorem run_app `{Numerics} (cfg : Options)
    (r1 r2 : list (string * WaveData)) (w : Table) :
  run cfg (r1 ++ r2) w = and_then cfg (run cfg r1 w) r2.
Proof. apply run_concat. Qed.

(** X8: an exception stops the batch.  When the loop over [pre] finishes
    with table [w'] and the pipeline raises [e] on the next item, which
    passes the duration filter, the loop ends with [e] and table [w'],
    whatever follows in the reader: the records written before are kept,
    no later item is processed. *)
Theorem exception_stops_batch `{Numerics} (cfg : Options)
    (pre post : list (string * WaveData)) (key : string) (wav : WaveData)
    (e : Exception) (w w' : Table) :
  run cfg pre w = Finished w' ->
  ~ (duration wav < min_duration cfg)%Q ->
  process cfg wav = Raise e ->
  run cfg (pre ++ (key, wav) :: post) w = Aborted e w'.
Proof.
  intros Hpre Hge Hraise. rewrite run_concat, Hpre.
  cbn [and_then run]. unfold iteration.
  destruct (below_min cfg wav) eqn:E.
  - apply below_min_iff in E. contradiction.
  - now rewrite Hraise.
Qed.

Lemma exception_stops_batch_witness :
  @run raw_numerics (example_options (1#2000))
     (example_reader ++ ("utt4"%string, example_wave_44k) :: example_reader)
     []
  = Aborted AssertionError
      [("utt1"%string, [[1#1; 3#1; 5#1; 7#1]%Q]);
       ("utt3"%string, [[1#1; 3#1; 5#1; 7#1]%Q])].
Proof.
  apply (@exception_stops_batch raw_numerics (example_options (1#2000))
           example_reader example_reader "utt4"%string example_wave_44k).
  - reflexivity.
  - intros Hlt. discriminate Hlt.
  - reflexivity.
Defined.

Lemma subseq_nil_l (A : Type) (l : list A) : subseq [] l.
Proof. induction l; now constructor. Qed.

(** X9: the keys of the records the loop adds to the table are the keys of
    the reader with some left out, in the order of the reader: no key is
    written that was not read, none is written before an earlier one, and
    an item is written at most once. *)
Theorem written_keys_in_source_order `{Numerics} (cfg : Options)
    (reader : list (string * WaveData)) (w0 : Table) :
  exists new,
    written (run cfg reader w0) = w0 ++ new /\
    subseq (map fst new) (map fst reader).
Proof.
  exists (flat_map (record_of cfg) (items_read cfg reader)).
  split; [apply run_written|].
  induction reader as [|[key wav] rest IH]; [constructor|].
  cbn [items_read]. destruct (below_min cfg wav) eqn:E.
  - cbn [flat_map record_of]. rewrite E. cbn [app map fst].
    now apply subseq_skip.
  - destruct (process cfg wav) as [f|e] eqn:P.
    + cbn [flat_map record_of]. rewrite E, P. cbn [app map fst].
      now apply subseq_keep.
    + cbn [flat_map record_of]. rewrite E, P. apply subseq_nil_l.
Qed.

Lemma process_set_min_duration `{Numerics} (d : Q) (cfg : Options)
    (wav : WaveData) :
  process (set_min_duration d cfg) wav = process cfg wav.
Proof. reflexivity. Qed.

Lemma below_min_mono (d1 d2 : Q) (cfg : Options) (wav : WaveData) :
  (d1 <= d2)%Q ->
  below_min (set_min_duration d1 cfg) wav = true ->
  below_min (set_min_duration d2 cfg) wav = true.
Proof.
  intros Hd Hb. apply below_min_iff in Hb. apply below_min_iff.
  cbn [min_duration set_min_duration] in *.
  now apply Qlt_le_trans with d1.
Qed.

Lemma higher_threshold_general `{Numerics} (d1 d2 : Q) (cfg : Options)
    (reader : list (string * WaveData)) :
  (d1 <= d2)%Q ->
  forall wa wb w1,
    run (set_min_duration d1 cfg) reader wa = Finished w1 ->
    exists new1 new2,
      w1 = wa ++ new1 /\
      run (set_min_duration d2 cfg) reader wb = Finished (wb ++ new2) /\
      subseq new2 new1.
Proof.
  intros Hd. induction reader as [|[key wav] rest IH]; intros wa wb w1 Hrun.
  - cbn in Hrun. injection Hrun as <-. exists [], []. cbn [run].
    rewrite !app_nil_r. repeat split. constructor.
  - cbn [run] in *. unfold iteration in *.
    destruct (below_min (set_min_duration d1 cfg) wav) eqn:E1.
    + rewrite (below_min_mono cfg wav Hd E1). now apply IH.
    + rewrite process_set_min_duration in *.
      destruct (process cfg wav) as [f|e] eqn:P; cbn [bind] in *;
        [|discriminate].
      destruct (below_min (set_min_duration d2 cfg) wav) eqn:E2.
      * destruct (IH _ wb _ Hrun) as (new1 & new2 & -> & Hrun2 & Hsub).
        exists ((key, f) :: new1), new2. rewrite <- app_assoc.
        repeat split; [exact Hrun2 | now apply subseq_skip].
      * destruct (IH _ (wb ++ [(key, f)]) _ Hrun)
          as (new1 & new2 & -> & Hrun2 & Hsub).
        exists ((key, f) :: new1), ((key, f) :: new2).
        rewrite <- !app_assoc in *.
        repeat split; [exact Hrun2 | now apply subseq_keep].
Qed.

(** X10: raising [min-duration] only removes records.  When the loop
    finishes under the threshold [d1], it also finishes under any threshold
    [d2 >= d1], and the records it adds under [d2] are records it adds
    under [d1], unchanged and in the same order. *)
Theorem higher_threshold_fewer_records `{Numerics} (d1 d2 : Q)
    (cfg : Options) (reader : list (string * WaveData)) (w0 w1 : Table) :
  (d1 <= d2)%Q ->
  run (set_min_duration d1 cfg) reader w0 = Finished w1 ->
  exists new1 new2,
    w1 = w0 ++ new1 /\
    run (set_min_duration d2 cfg) reader w0 = Finished (w0 ++ new2) /\
    subseq new2 new1.
Proof.
  intros Hd Hrun. now apply (higher_threshold_general cfg reader Hd w0 w0).
Qed.

Lemma higher_threshold_fewer_records_witness :
  exists new1 new2,
    [("utt1"%string, [[1#1; 3#1]; [3#1; 5#1]; [5#1; 7#1]; [7#1; 9#1]]%Q);
     ("utt2"%string, [[1#1; 3#1]]%Q);
     ("utt3"%string, [[1#1; 3#1]; [3#1; 5#1]; [5#1; 7#1]; [7#1; 9#1]]%Q)]
    = [] ++ new1 /\
    @run raw_numerics (set_min_duration (1#2000) (mkOptions 0 8000 2 1))
       example_reader [] = Finished ([] ++ new2) /\
    subseq new2 new1.
Proof.
  apply (@higher_threshold_fewer_records raw_numerics 0 (1#2000)
           (mkOptions 0 8000 2 1) example_reader []).
  - discriminate.
  - reflexivity.
Defined.

(** ** The loop over the reader's entries *)

Lemma run_reader_app_loaded `{Numerics} (cfg : Options)
    (pre : list (string * WaveData)) (rest : list Entry) :
  forall w,
    run_reader cfg (map loaded pre ++ rest) w
    = match run cfg pre w with
      | Finished w' => run_reader cfg rest w'
      | Aborted e w' => BodyRaised e w'
      end.
Proof.
  induction pre as [|[key wav] pre IH]; intros w; [reflexivity|].
  cbn [map app run_reader run loaded entry_value entry_key fst snd].
  destruct (iteration cfg (key, wav) w) as [w'|e]; [apply IH | reflexivity].
Qed.

(** X11: when every entry of the table loads, the [for] statement over the
    reader ends as the loop over the list of its (key, wave) items does:
    with the same table, and with the same exception if one is raised. *)
Theorem run_reader_all_loaded `{Numerics} (cfg : Options)
    (reader : list (string * WaveData)) (w : Table) :
  run_reader cfg (map loaded reader) w = of_outcome (run cfg reader w).
Proof.
  rewrite <- (app_nil_r (map loaded reader)), run_reader_app_loaded.
  now destruct (run cfg reader w).
Qed.

(** X12: an entry that fails to load ends the loop with [RuntimeError] when
    the loop reaches it: the body does not run for it, the records of the
    entries before it are in the table, and nothing after it is read.  If
    the body raised on an earlier entry, that exception is the outcome and
    the failing entry is never asked for. *)
Theorem load_failure_stops_loop `{Numerics} (cfg : Options)
    (pre : list (string * WaveData)) (key : string) (post : list Entry)
    (w : Table) :
  run_reader cfg (map loaded pre ++ mkEntry key None :: post) w
  = then_load_fails key (run cfg pre w).
Proof.
  rewrite run_reader_app_loaded.
  now destruct (run cfg pre w).
Qed.

Lemma load_failure_stops_loop_witness :
  @run_reader raw_numerics (example_options 0) notebook_entries []
  = RuntimeError "TEST"%string [].
Proof.
  exact (@load_failure_stops_loop raw_numerics (example_options 0) []
           "TEST"%string [] []).
Defined.

(** ** Standardized columns *)










